(** * Food wastage dashboard (app.py): listing store and dashboard aggregates

    A shallow embedding of the data-access and aggregation code of [app.py]:
    the two SQLite tables, the "Add New Food Listing" form handler, the two
    cached loaders, and the pandas expressions of the dashboard tab.

    Modelling conventions.
    - A Python [str] is a [string] whose characters are the code points
      below 256; [str.strip()] removes the whitespace of that range.
    - [Quantity] (SQLite REAL, a Python float) is an exact rational [Qc]:
      sums are exact, rounding is not modelled.
    - The Streamlit script is a state-passing computation over a session
      (the shared connection and the elements rendered so far) that either
      returns or is halted by [st.stop()].
    - A storage fault is a flag of the connection: while it is set every
      statement raises the exception whose text it carries.
    - [st.cache_resource] / [st.cache_data] only memoise; they are left out.
    - Emoji prefixes of the user-visible messages are left out. *)

From Stdlib Require Import List String Ascii Bool Arith NArith ZArith Lia.
From Stdlib Require Import QArith Qcanon Permutation Sorted.
Import ListNotations.
Local Open Scope string_scope.
Local Open Scope nat_scope.

(* ================================================================== *)
(** ** Python strings *)

(** [str.isspace] on one character (code points below 256): TAB..CR,
    FS..US, SPACE, NEL and NBSP. *)
Definition isspace (c : ascii) : bool :=
  let n := N_of_ascii c in
  (((9 <=? n) && (n <=? 13)) || ((28 <=? n) && (n <=? 32))
   || (n =? 133) || (n =? 160))%N.

Fixpoint lstrip (s : string) : string :=
  match s with
  | EmptyString => EmptyString
  | String c s' => if isspace c then lstrip s' else s
  end.

Fixpoint rstrip (s : string) : string :=
  match s with
  | EmptyString => EmptyString
  | String c s' =>
      match rstrip s' with
      | EmptyString => if isspace c then EmptyString else String c EmptyString
      | r => String c r
      end
  end.

(** [s.strip()] *)
Definition strip (s : string) : string := rstrip (lstrip s).

(** Truth value of a [str]: non-empty. *)
Definition truthy (s : string) : bool := negb (String.eqb s "").

(** Python's [all([...])] over truth values. *)
Definition all (l : list bool) : bool := forallb (fun b => b) l.

(** First and last character, used to state that a value is trimmed. *)
Definition first_char (s : string) : option ascii :=
  match s with EmptyString => None | String c _ => Some c end.

Fixpoint last_char (s : string) : option ascii :=
  match s with
  | EmptyString => None
  | String c EmptyString => Some c
  | String _ s' => last_char s'
  end.

Definition is_space_opt (o : option ascii) : bool :=
  match o with Some c => isspace c | None => false end.

(** A trimmed value: non-empty, no whitespace at either end. *)
Definition trimmed (s : string) : Prop :=
  s <> "" /\ is_space_opt (first_char s) = false
  /\ is_space_opt (last_char s) = false.

(* ================================================================== *)
(** ** Calendar dates ([datetime.date], [pd.Timestamp] at midnight) *)

Record Date := mkDate { year : Z; month : Z; day : Z }.

Definition is_leap (y : Z) : bool :=
  (((y mod 4 =? 0) && negb (y mod 100 =? 0)) || (y mod 400 =? 0))%Z.

Definition days_in_month (y m : Z) : Z :=
  match m with
  | 1 | 3 | 5 | 7 | 8 | 10 | 12 => 31
  | 4 | 6 | 9 | 11 => 30
  | 2 => if is_leap y then 29 else 28
  | _ => 0
  end%Z.

(** The values a [datetime.date] can hold. *)
Definition valid_date (d : Date) : bool :=
  ((1 <=? year d) && (year d <=? 9999) && (1 <=? month d) && (month d <=? 12)
   && (1 <=? day d) && (day d <=? days_in_month (year d) (month d)))%Z.

(** [a < b] on dates. *)
Definition date_ltb (a b : Date) : bool :=
  ((year a <? year b)
   || ((year a =? year b)
       && ((month a <? month b)
           || ((month a =? month b) && (day a <? day b)))))%Z.

(** The decimal digit of [n] in the units place, as a character. *)
Definition digit (n : Z) : ascii := ascii_of_N (Z.to_N (48 + n mod 10)).

Definition pad2 (n : Z) : string :=
  String (digit (n / 10)) (String (digit n) "").

Definition pad4 (n : Z) : string :=
  String (digit (n / 1000)) (String (digit (n / 100)) (pad2 n)).

(** [d.strftime("%Y-%m-%d")]: year in four digits, month and day in two
    (the date widget hands over no year below the current one). *)
Definition strftime_ymd (d : Date) : string :=
  pad4 (year d) ++ "-" ++ pad2 (month d) ++ "-" ++ pad2 (day d).

Definition is_digit (c : ascii) : bool :=
  let n := N_of_ascii c in ((48 <=? n) && (n <=? 57))%N.

Definition digit_val (c : ascii) : Z := Z.of_N (N_of_ascii c) - 48.

(** The shape YYYY-MM-DD. *)
Definition is_ymd (s : string) : bool :=
  match list_ascii_of_string s with
  | [y1; y2; y3; y4; h1; m1; m2; h2; d1; d2] =>
      forallb is_digit [y1; y2; y3; y4; m1; m2; d1; d2]
      && Ascii.eqb h1 "-" && Ascii.eqb h2 "-"
  | _ => false
  end.

(** [a <= b] on dates. *)
Definition date_leb (a b : Date) : bool := negb (date_ltb b a).

(** The days that a nanosecond [pd.Timestamp] can hold at midnight. *)
Definition in_timestamp_range (d : Date) : bool :=
  date_leb (mkDate 1677 9 22) d && date_leb d (mkDate 2262 4 11).

(** [pd.to_datetime(x, errors='coerce')] on one cell, for the spelling
    that the form handler writes (YYYY-MM-DD naming a real calendar day
    within the timestamp range); [None] is NaT.  Every other text is taken
    as unparsable. *)
Definition to_datetime (s : string) : option Date :=
  match list_ascii_of_string s with
  | [y1; y2; y3; y4; _; m1; m2; _; d1; d2] =>
      if is_ymd s then
        let d := {| year := 1000 * digit_val y1 + 100 * digit_val y2
                            + 10 * digit_val y3 + digit_val y4;
                    month := 10 * digit_val m1 + digit_val m2;
                    day := 10 * digit_val d1 + digit_val d2 |}%Z in
        if valid_date d && in_timestamp_range d then Some d else None
      else None
  | _ => None
  end.

(** [ts < today] on a possibly missing timestamp: NaT compares false. *)
Definition ts_ltb (ts : option Date) (today : Date) : bool :=
  match ts with
  | Some d => date_ltb d today
  | None => false
  end.


(* ================================================================== *)
(** ** Quantities *)

Definition Qc_ltb (p q : Qc) : bool :=
  match (p ?= q)%Qc with Lt => true | _ => false end.

Definition Qc_leb (p q : Qc) : bool :=
  match (p ?= q)%Qc with Gt => false | _ => true end.

(** A quantity written as a fraction [n/d]. *)
Definition kg (n : Z) (d : positive) : Qc := Q2Qc (n # d).

(** [Series.sum()] *)
Definition sum (l : list Qc) : Qc := fold_left Qcplus l (Q2Qc 0).

(* ================================================================== *)
(** ** Storage: the two tables of [create_tables] *)

(** A row of [food_listings].  The type of the [Expiry_Date] column is a
    parameter: TEXT as stored, a timestamp once the dashboard has put the
    column through [pd.to_datetime]. *)
Record Listing (D : Type) := mkListing {
  l_id : nat;                (* id INTEGER PRIMARY KEY AUTOINCREMENT *)
  Food_ID : string;
  Provider_ID : string;
  Food_Item : string;
  Quantity : Qc;
  Expiry_Date : D;
  Location : string;
  Meal_Type : string
}.
Arguments mkListing {D}.
Arguments l_id {D}.
Arguments Food_ID {D}.
Arguments Provider_ID {D}.
Arguments Food_Item {D}.
Arguments Quantity {D}.
Arguments Expiry_Date {D}.
Arguments Location {D}.
Arguments Meal_Type {D}.

(** A row of [providers]. *)
Record Provider := mkProvider {
  p_id : nat;                (* id INTEGER PRIMARY KEY AUTOINCREMENT *)
  Name : string;
  Contact : string;
  City : string
}.

(** A table with an AUTOINCREMENT key: its rows in storage order and the
    largest key ever handed out (the [sqlite_sequence] entry). *)
Record Table (R : Type) := mkTable { rows : list R; seq : nat }.
Arguments mkTable {R}.
Arguments rows {R}.
Arguments seq {R}.

Record Database := mkDatabase {
  food_listings : Table (Listing string);
  providers : Table Provider
}.

(** [create_tables] on a fresh database file. *)
Definition create_tables : Database :=
  {| food_listings := mkTable [] 0; providers := mkTable [] 0 |}.

Definition Exception := string.

(** The shared connection of [get_connection]. *)
Record Connection := mkConnection {
  db : Database;
  fault : option Exception
}.

(** Conflict clause of an INSERT. *)
Inductive OnConflict := Abort | Ignore.

Section Insert.
Context {R : Type} (rowid : R -> nat).

(** Key given to a row inserted without an explicit id. *)
Definition next_rowid (t : Table R) : nat :=
  S (Nat.max (seq t) (list_max (map rowid (rows t)))).

(** The uniqueness constraints of both schemas: the primary key alone. *)
Definition pk_conflict (t : Table R) (i : nat) : bool :=
  existsb (fun r => rowid r =? i) (rows t).

(** [INSERT [OR IGNORE] INTO t (...) VALUES (...)]: the row is built from
    the fresh key; a constraint violation raises under ABORT and skips
    the row under IGNORE. *)
Definition insert (oc : OnConflict) (mk : nat -> R) (t : Table R)
  : Exception + Table R :=
  let i := next_rowid t in
  if pk_conflict t i then
    match oc with
    | Abort => inl "UNIQUE constraint failed"
    | Ignore => inr t
    end
  else inr {| rows := rows t ++ [mk i]; seq := i |}.
End Insert.

(** Statements run on the connection: they may raise, and leave the
    connection in the state reached so far. *)
Definition Sql (A : Type) : Type := Connection -> (Exception + A) * Connection.

Definition sql_ret {A} (a : A) : Sql A := fun c => (inr a, c).

Definition sql_bind {A B} (m : Sql A) (k : A -> Sql B) : Sql B :=
  fun c =>
    match m c with
    | (inr a, c') => k a c'
    | (inl e, c') => (inl e, c')
    end.

Declare Scope sql_scope.
Delimit Scope sql_scope with sql.
Notation "m ;; k" := (sql_bind m (fun _ => k))
  (at level 61, right associativity) : sql_scope.

(** A statement that changes the database by [f], unless the storage is
    faulty or [f] itself raises. *)
Definition execute (f : Database -> Exception + Database) : Sql unit :=
  fun c =>
    match fault c with
    | Some e => (inl e, c)
    | None =>
        match f (db c) with
        | inr d => (inr tt, {| db := d; fault := fault c |})
        | inl e => (inl e, c)
        end
    end.

(** [conn.commit()] *)
Definition commit : Sql unit :=
  fun c => match fault c with Some e => (inl e, c) | None => (inr tt, c) end.

(** [INSERT INTO food_listings (Food_ID, ..., Meal_Type) VALUES (?, ...)] *)
Definition insert_food_listing
    (fid pid item : string) (q : Qc) (exp loc meal : string) : Sql unit :=
  execute (fun d =>
    match insert l_id Abort
            (fun i => mkListing i fid pid item q exp loc meal)
            (food_listings d) with
    | inr t => inr {| food_listings := t; providers := providers d |}
    | inl e => inl e
    end).

(** [INSERT OR IGNORE INTO providers (Name, Contact, City) VALUES (?, ?, ?)] *)
Definition insert_or_ignore_provider (name contact city : string) : Sql unit :=
  execute (fun d =>
    match insert p_id Ignore
            (fun i => mkProvider i name contact city)
            (providers d) with
    | inr t => inr {| food_listings := food_listings d; providers := t |}
    | inl e => inl e
    end).

(** [pd.read_sql("SELECT * FROM food_listings", conn)] *)
Definition read_food_listings : Sql (list (Listing string)) :=
  fun c =>
    match fault c with
    | Some e => (inl e, c)
    | None => (inr (rows (food_listings (db c))), c)
    end.

(** [pd.read_sql("SELECT Name, Contact, City FROM providers WHERE City = ?",
    conn, params=(city,))] *)
Definition read_providers_by_city (city : string)
  : Sql (list (string * string * string)) :=
  fun c =>
    match fault c with
    | Some e => (inl e, c)
    | None =>
        (inr (map (fun p => (Name p, Contact p, City p))
                (filter (fun p => String.eqb (City p) city)
                   (rows (providers (db c))))), c)
    end.

(* ================================================================== *)
(** ** The Streamlit script *)

(** What the script has put on the page. *)
Inductive Element :=
| st_error (msg : string)
| st_code (body : string)
| st_warning (msg : string)
| st_success (msg : string)
| st_info (msg : string)
| st_dataframe (n_rows : nat).

Record Session := mkSession {
  conn : Connection;
  page : list Element
}.

(** A run of a piece of the script either returns or was halted by
    [st.stop()]. *)
Inductive Outcome (A : Type) :=
| Returned (a : A)
| Stopped.
Arguments Returned {A}.
Arguments Stopped {A}.

Definition Script (A : Type) : Type := Session -> Outcome A * Session.

Definition ret {A} (a : A) : Script A := fun s => (Returned a, s).

Definition bind {A B} (m : Script A) (k : A -> Script B) : Script B :=
  fun s =>
    match m s with
    | (Returned a, s') => k a s'
    | (Stopped, s') => (Stopped, s')
    end.

Declare Scope script_scope.
Delimit Scope script_scope with script.
Notation "x <- m ;; k" := (bind m (fun x => k))
  (at level 61, m at next level, right associativity) : script_scope.
Notation "m ;; k" := (bind m (fun _ => k))
  (at level 61, right associativity) : script_scope.

(** [st.error(..)], [st.warning(..)], ...: append to the page. *)
Definition render (e : Element) : Script unit :=
  fun s => (Returned tt, {| conn := conn s; page := page s ++ [e] |}).

(** [st.stop()] *)
Definition st_stop {A} : Script A := fun s => (Stopped, s).

(** [try: x = body; rest(x)  except Exception as e: handler(e)], where
    only the statements of [body] can raise. *)
Definition try_except {A B} (body : Sql A) (rest : A -> Script B)
    (handler : Exception -> Script B) : Script B :=
  fun s =>
    match body (conn s) with
    | (inr a, c) => rest a {| conn := c; page := page s |}
    | (inl e, c) => handler e {| conn := c; page := page s |}
    end.

(** [load_food_listings] *)
Definition load_food_listings : Script (list (Listing string)) :=
  try_except read_food_listings ret
    (fun e =>
       (render (st_error "Failed to load food listings.") ;;
        render (st_code e) ;;
        st_stop)%script).

(** [load_providers_by_city]; the empty list is the column-less
    [pd.DataFrame()]. *)
Definition load_providers_by_city (city : string)
  : Script (list (string * string * string)) :=
  try_except (read_providers_by_city city) ret
    (fun e =>
       (render (st_error "Error fetching contacts.") ;;
        render (st_code e) ;;
        ret [])%script).

(** The "Show Contacts in Selected City" button of tab 1. *)
Definition show_contacts (city : string) : Script unit :=
  (contact_df <- load_providers_by_city city ;;
   match contact_df with
   | [] => render (st_warning "No providers found in this city.")
   | _ => render (st_dataframe (List.length contact_df))
   end)%script.

(** The listing table at the top of tab 1. *)
Definition show_listings : Script unit :=
  (df <- load_food_listings ;;
   match df with
   | [] => render (st_info "No food listings found.")
   | _ => render (st_dataframe (List.length df))
   end)%script.

(** The choices of [st.selectbox("Meal Type", ["Veg", "Non-Veg", "Vegan"])]. *)
Inductive MealType := Veg | NonVeg | Vegan.

(** The option text that the selectbox returns. *)
Definition option_text (m : MealType) : string :=
  match m with
  | Veg => "Veg"
  | NonVeg => "Non-Veg"
  | Vegan => "Vegan"
  end.

(** The values of the widgets of [add_food_form] at submission. *)
Record Form := mkForm {
  food_id : string;
  provider_id : string;
  food_item : string;
  quantity : Qc;
  expiry : Date;
  location : string;
  meal_type : MealType;
  provider_name : string;
  provider_contact : string
}.

(** The condition guarding the inserts: no empty strings, quantity > 0. *)
Definition validate (f : Form) : bool :=
  all [ truthy (strip (food_id f)); truthy (strip (provider_id f));
        truthy (strip (food_item f)); truthy (strip (location f));
        truthy (strip (provider_name f)); truthy (strip (provider_contact f));
        truthy (option_text (meal_type f)) ]
  && Qc_ltb (Q2Qc 0) (quantity f).

(** The body of [if submitted:] in [add_food_form]. *)
Definition add_food_form (f : Form) : Script unit :=
  if validate f then
    try_except
      (insert_food_listing
         (strip (food_id f)) (strip (provider_id f)) (strip (food_item f))
         (quantity f) (strftime_ymd (expiry f))
         (strip (location f)) (option_text (meal_type f)) ;;
       insert_or_ignore_provider
         (strip (provider_name f)) (strip (provider_contact f))
         (strip (location f)) ;;
       commit)%sql
      (fun _ => render (st_success "New food listing added successfully!"))
      (fun e => render (st_error ("Failed to add food listing: " ++ e)))
  else render (st_warning "Please fill all required fields correctly.").

(* ================================================================== *)
(** ** The dashboard (tab 2) *)

(** The frame after [Expiry_Date] went through [pd.to_datetime]. *)
Definition Frame : Type := list (Listing (option Date)).

(** [col.fillna('Unknown').replace('', 'Unknown')] on a NOT NULL column. *)
Definition fill_unknown (s : string) : string :=
  if String.eqb s "" then "Unknown" else s.

(** Lines 159-164: coerce the dates, clean [Food_Item] and [Meal_Type]. *)
Definition prepare (df : list (Listing string)) : Frame :=
  map (fun r =>
         mkListing (l_id r) (Food_ID r) (Provider_ID r)
           (fill_unknown (Food_Item r)) (Quantity r)
           (to_datetime (Expiry_Date r)) (Location r)
           (fill_unknown (Meal_Type r)))
      df.

Definition total_listings (df : Frame) : nat := List.length df.

Definition total_quantity (df : Frame) : Qc := sum (map Quantity df).

(** [df[df['Expiry_Date'] < today]] *)
Definition expired_items (today : Date) (df : Frame) : Frame :=
  filter (fun r => ts_ltb (Expiry_Date r) today) df.

Definition num_expired (today : Date) (df : Frame) : nat :=
  List.length (expired_items today df).

(** Add [q] to the group of key [k]; the groups are kept in ascending
    key order, as [groupby] (sort=True) returns them. *)
Fixpoint group_add (k : string) (q : Qc) (g : list (string * Qc))
  : list (string * Qc) :=
  match g with
  | [] => [(k, q)]
  | (k', s) :: g' =>
      match String.compare k k' with
      | Eq => (k', (s + q)%Qc) :: g'
      | Lt => (k, q) :: g
      | Gt => (k', s) :: group_add k q g'
      end
  end.

(** [df.groupby(key)["Quantity"].sum()]: each group's quantities are
    added in row order. *)
Definition groupby_sum (key : Listing (option Date) -> string) (df : Frame)
  : list (string * Qc) :=
  fold_left (fun g r => group_add (key r) (Quantity r) g) df [].

Section SortValues.
Context {K V : Type} (leb : V -> V -> bool).

Fixpoint insert_sorted (x : K * V) (l : list (K * V)) : list (K * V) :=
  match l with
  | [] => [x]
  | y :: l' =>
      if leb (snd x) (snd y) then x :: l else y :: insert_sorted x l'
  end.

(** Ascending sort that keeps equal values in their given order. *)
Definition stable_sort (l : list (K * V)) : list (K * V) :=
  fold_right insert_sorted [] l.

(** [Series.sort_values(ascending=...)]: for a descending sort pandas
    reverses the values, sorts them ascending and reverses the result.
    The underlying sort is taken to keep equal values in order. *)
Definition sort_values (ascending : bool) (l : list (K * V))
  : list (K * V) :=
  if ascending then stable_sort l else rev (stable_sort (rev l)).
End SortValues.

(** [.head(n)] *)
Definition head {A} (n : nat) (l : list A) : list A := firstn n l.



(** [df.groupby("Food_Item")["Quantity"].sum()
       .sort_values(ascending=False).head(n)] *)
Definition top_food_items (n : nat) (df : Frame) : list (string * Qc) :=
  head n (sort_values Qc_leb false (groupby_sum Food_Item df)).

(** Line 211: the dashboard asks for five. *)
Definition top_food (df : Frame) : list (string * Qc) := top_food_items 5 df.

(** [df['Is_Expired'] = df['Expiry_Date'] < today] *)
Definition Is_Expired (today : Date) (df : Frame) : list bool :=
  map (fun r => ts_ltb (Expiry_Date r) today) df.

(** The distinct values of a column in order of first appearance. *)
Definition unique (col : list bool) : list bool :=
  fold_left (fun acc b => if existsb (Bool.eqb b) acc then acc else (acc ++ [b])%list)
    col [].

(** [Series.value_counts()]: one entry per value that occurs, largest
    count first. *)
Definition value_counts (col : list bool) : list (bool * nat) :=
  sort_values Nat.leb false
    (map (fun v => (v, count_occ bool_dec col v)) (unique col)).

(** Lines 222-224: the two-bucket table behind the expiry pie chart. *)
Definition expiry_status (today : Date) (df : Frame) : list (string * nat) :=
  map (fun p : bool * nat =>
         (if fst p then "Expired" else "Not Expired", snd p))
    (value_counts (Is_Expired today df)).

(** The count shown for a bucket; a bucket without entry counts zero. *)
Fixpoint bucket (label : string) (t : list (string * nat)) : nat :=
  match t with
  | [] => 0
  | (l, n) :: t' => if String.eqb l label then n else bucket label t'
  end.

(* ================================================================== *)
(** ** Vocabulary of the stated properties *)

(** Rows whose date parsed and is not before [today]. *)
Definition num_not_expired (today : Date) (df : Frame) : nat :=
  List.length
    (filter (fun r => match Expiry_Date r with
                      | Some d => negb (date_ltb d today)
                      | None => false
                      end) df).

(** Rows whose date did not parse. *)
Definition num_unparsable (df : Frame) : nat :=
  List.length
    (filter (fun r => match Expiry_Date r with
                      | Some _ => false
                      | None => true
                      end) df).






(** How many provider rows carry the tuple (Name, Contact, City). *)
Definition provider_rows (name contact city : string) (d : Database) : nat :=
  List.length
    (filter (fun p => String.eqb (Name p) name && String.eqb (Contact p) contact
                      && String.eqb (City p) city)
       (rows (providers d))).

(** Run the form handler on a series of submissions. *)
Fixpoint submit_all (fs : list Form) (s : Session) : Session :=
  match fs with
  | [] => s
  | f :: fs' => submit_all fs' (snd (add_food_form f s))
  end.

(** A session on a healthy connection to freshly created tables. *)
Definition fresh_session : Session :=
  {| conn := {| db := create_tables; fault := None |}; page := [] |}.

(** A storage fault halts the piece of script [op]. *)
Definition fault_halts {A} (op : Script A) (s : Session) : Prop :=
  fault (conn s) <> None -> fst (op s) = Stopped.



(** The listing row that a submission writes under key [i]. *)
Definition listing_of_form (i : nat) (f : Form) : Listing string :=
  mkListing i (strip (food_id f)) (strip (provider_id f))
    (strip (food_item f)) (quantity f) (strftime_ymd (expiry f))
    (strip (location f)) (option_text (meal_type f)).

(** The provider row that a submission writes under key [i]. *)
Definition provider_of_form (i : nat) (f : Form) : Provider :=
  mkProvider i (strip (provider_name f)) (strip (provider_contact f))
    (strip (location f)).

(** The database after an accepted submission. *)
Definition db_after_add (f : Form) (d : Database) : Database :=
  {| food_listings :=
       {| rows := rows (food_listings d)
                  ++ [listing_of_form (next_rowid l_id (food_listings d)) f];
          seq := next_rowid l_id (food_listings d) |};
     providers :=
       {| rows := rows (providers d)
                  ++ [provider_of_form (next_rowid p_id (providers d)) f];
          seq := next_rowid p_id (providers d) |} |}.

(** The listing row [r] is what the handler writes for the submission [f]:
    the text fields are the stripped inputs, hence trimmed, and the date is
    spelled YYYY-MM-DD. *)
Definition listing_from (f : Form) (r : Listing string) : Prop :=
  Food_ID r = strip (food_id f) /\ Provider_ID r = strip (provider_id f)
  /\ Food_Item r = strip (food_item f) /\ Location r = strip (location f)
  /\ Expiry_Date r = strftime_ymd (expiry f)
  /\ trimmed (Food_ID r) /\ trimmed (Provider_ID r)
  /\ trimmed (Food_Item r) /\ trimmed (Location r)
  /\ is_ymd (Expiry_Date r) = true.

(** The provider row [p] is what the handler writes for [f]. *)
Definition provider_from (f : Form) (p : Provider) : Prop :=
  Name p = strip (provider_name f) /\ Contact p = strip (provider_contact f)
  /\ City p = strip (location f)
  /\ trimmed (Name p) /\ trimmed (Contact p) /\ trimmed (City p).

(** A session whose storage is out of order. *)
Definition faulty_session : Session :=
  {| conn := {| db := create_tables; fault := Some "database is locked" |};
     page := [] |}.

(** Sample submissions. *)
Definition bread_form : Form :=
  mkForm "F1" "P1" " Bread " (kg 5 1) (mkDate 2020 1 1) "Pune" Veg
    "Asha" "555".

Definition blank_form : Form :=
  mkForm "F2" "P1" "   " (kg 5 1) (mkDate 2030 1 1) "Pune" Veg "Asha" "555".

(** Sample stored rows: two Apple listings and a Bread listing. *)
Definition sample_listings : list (Listing string) :=
  [ mkListing 1 "F1" "P1" "Apple" (kg 10 1) "2099-01-01" "Pune" "Veg";
    mkListing 2 "F2" "P1" "Apple" (kg 5 1) "2099-02-01" "Pune" "Veg";
    mkListing 3 "F3" "P2" "Bread" (kg 3 1) "2020-01-01" "Pune" "Veg" ].

(** A stored row whose Expiry_Date is not a date. *)
Definition undated_listings : list (Listing string) :=
  [ mkListing 1 "F1" "P1" "Bread" (kg 3 1) "n/a" "Pune" "Veg" ].



(** The count that a [value_counts] table holds for the value [b]. *)
Fixpoint count_for (b : bool) (t : list (bool * nat)) : nat :=
  match t with
  | [] => 0
  | (v, n) :: t' => if Bool.eqb v b then n else count_for b t'
  end.

(** The keys of a grouped series are strictly ascending. *)
Definition keys_ascending (g : list (string * Qc)) : Prop :=
  StronglySorted (fun a b => String.compare (fst a) (fst b) = Lt) g.

(** Ascending by sum, equal sums by descending key. *)
Definition asc_tie_desc (a b : string * Qc) : Prop :=
  (snd a < snd b)%Qc
  \/ (snd a = snd b /\ String.compare (fst b) (fst a) = Lt).

(** Descending by sum, equal sums by ascending key. *)
Definition desc_tie_asc (a b : string * Qc) : Prop :=
  (snd b < snd a)%Qc
  \/ (snd b = snd a /\ String.compare (fst a) (fst b) = Lt).

(* ================================================================== *)
(** ** Further expressions of the dashboard and of tab 1 *)

Section GroupBy.
Context {K V : Type} (cmp : K -> K -> comparison) (add : V -> V -> V).

(** Merge the value [v] into the group of key [k]; groups stay in the
    ascending key order of [groupby]. *)
Fixpoint group_add_by (k : K) (v : V) (g : list (K * V)) : list (K * V) :=
  match g with
  | [] => [(k, v)]
  | (k', s) :: g' =>
      match cmp k k' with
      | Eq => (k', add s v) :: g'
      | Lt => (k, v) :: g
      | Gt => (k', s) :: group_add_by k v g'
      end
  end.

(** [df.groupby(key)[col].agg(...)] for an aggregate that folds the values
    of a group in row order. *)
Definition groupby_agg {R} (key : R -> K) (val : R -> V) (df : list R)
  : list (K * V) :=
  fold_left (fun g r => group_add_by (key r) (val r) g) df [].

(** The entry of a grouped series for the key [k], if there is one. *)
Fixpoint group_get (k : K) (g : list (K * V)) : option V :=
  match g with
  | [] => None
  | (k', s) :: g' =>
      match cmp k k' with
      | Eq => Some s
      | _ => group_get k g'
      end
  end.

(** The values of one group folded in order; [None] for no value. *)
Definition reduce (l : list V) : option V :=
  match l with
  | [] => None
  | v :: l' => Some (fold_left add l' v)
  end.

(** The keys of a grouped series are strictly ascending. *)
Definition ascending_by (g : list (K * V)) : Prop :=
  StronglySorted (fun a b => cmp (fst a) (fst b) = Lt) g.

(** Does the row [r] belong to the group of key [k]? *)
Definition in_group {R} (key : R -> K) (k : K) (r : R) : bool :=
  match cmp k (key r) with Eq => true | _ => false end.
End GroupBy.

(** The distinct values of a column in order of first appearance
    ([Series.unique()]). *)
Definition unique_by {A} (eqb : A -> A -> bool) (col : list A) : list A :=
  fold_left (fun acc a => if existsb (eqb a) acc then acc else (acc ++ [a])%list)
    col [].

(** [Series.nunique()] on a NOT NULL text column. *)
Definition nunique (col : list string) : nat :=
  List.length (unique_by String.eqb col).

(** Lines 169-170. *)
Definition unique_food_items (df : Frame) : nat := nunique (map Food_Item df).

Definition unique_providers (df : Frame) : nat :=
  nunique (map Provider_ID df).





(** Order of two dates. *)
Definition date_compare (a b : Date) : comparison :=
  match (year a ?= year b)%Z with
  | Eq => match (month a ?= month b)%Z with
          | Eq => (day a ?= day b)%Z
          | c => c
          end
  | c => c
  end.



(** Python's [sorted] on a list of [str]. *)
Fixpoint insert_str (s : string) (l : list string) : list string :=
  match l with
  | [] => [s]
  | t :: l' => if String.leb s t then s :: l else t :: insert_str s l'
  end.

Definition sorted (l : list string) : list string :=
  fold_right insert_str [] l.

(** Line 85: [sorted(df["Location"].dropna().unique())]; the column is
    NOT NULL, so [dropna] removes nothing. *)
Definition cities (df : list (Listing string)) : list string :=
  sorted (unique_by String.eqb (map Location df)).

(** Line 88: [df[df["Location"] == city]] *)
Definition filtered_df (city : string) (df : list (Listing string))
  : list (Listing string) :=
  filter (fun r => String.eqb (Location r) city) df.

(** A text made of whitespace only (the empty text included). *)
Definition blank (s : string) : bool :=
  forallb isspace (list_ascii_of_string s).

(* ================================================================== *)
(** * Properties *)

(** ** Strings *)

Lemma lstrip_first s : is_space_opt (first_char (lstrip s)) = false.
Proof.
  induction s as [|c s IH]; simpl; [reflexivity|].
  destruct (isspace c) eqn:E; [exact IH | simpl; exact E].
Qed.

Lemma rstrip_last s : is_space_opt (last_char (rstrip s)) = false.
Proof.
  induction s as [|c s IH]; simpl; [reflexivity|].
  destruct (rstrip s) as [|c' r] eqn:R.
  - destruct (isspace c) eqn:E; simpl; [reflexivity | exact E].
  - exact IH.
Qed.

Lemma rstrip_first s :
  rstrip s = "" \/ first_char (rstrip s) = first_char s.
Proof.
  destruct s as [|c s]; simpl; [now left|].
  destruct (rstrip s); [destruct (isspace c)|]; auto.
Qed.

Lemma strip_trimmed s : strip s <> "" -> trimmed (strip s).
Proof.
  intros H. unfold trimmed, strip in *. repeat split; trivial.
  - destruct (rstrip_first (lstrip s)) as [E|E]; [contradiction|].
    rewrite E. apply lstrip_first.
  - apply rstrip_last.
Qed.

Lemma truthy_true s : truthy s = true <-> s <> "".
Proof.
  unfold truthy. rewrite negb_true_iff. apply String.eqb_neq.
Qed.

Lemma truthy_option_text m : truthy (option_text m) = true.
Proof. destruct m; reflexivity. Qed.

(** ** Quantities *)

Lemma Qc_ltb_lt p q : Qc_ltb p q = true <-> (p < q)%Qc.
Proof.
  unfold Qc_ltb. rewrite Qclt_alt.
  destruct (p ?= q)%Qc; split; congruence.
Qed.

Lemma Qc_leb_le p q : Qc_leb p q = true <-> (p <= q)%Qc.
Proof.
  unfold Qc_leb. rewrite Qcle_alt.
  destruct (p ?= q)%Qc; split; congruence.
Qed.

Lemma Qc_leb_gt p q : Qc_leb p q = false <-> (q < p)%Qc.
Proof.
  unfold Qc_leb. rewrite Qclt_alt. unfold Qccompare.
  rewrite <- (Qcompare_antisym p q).
  destruct (Qcompare p q); simpl; split; congruence.
Qed.

(** ** Inserting under an AUTOINCREMENT key *)

Section InsertFacts.
Context {R : Type} (rowid : R -> nat).

Lemma list_max_ge (l : list nat) n : In n l -> n <= list_max l.
Proof.
  induction l as [|m l IH]; simpl; [tauto|].
  intros [->|H]; [lia | specialize (IH H); lia].
Qed.

(** The fresh key clashes with no stored row. *)
Lemma next_rowid_fresh (t : Table R) :
  pk_conflict rowid t (next_rowid rowid t) = false.
Proof.
  unfold pk_conflict. apply not_true_iff_false. intros H.
  apply existsb_exists in H. destruct H as [r [Hin Heq]].
  apply Nat.eqb_eq in Heq.
  assert (rowid r <= list_max (map rowid (rows t)))
    by (apply list_max_ge, in_map, Hin).
  unfold next_rowid in Heq. lia.
Qed.

(** So the insert always appends, whatever its conflict clause. *)
Lemma insert_appends oc (mk : nat -> R) (t : Table R) :
  insert rowid oc mk t =
  inr {| rows := rows t ++ [mk (next_rowid rowid t)];
         seq := next_rowid rowid t |}.
Proof. unfold insert. now rewrite next_rowid_fresh. Qed.
End InsertFacts.

(** ** The form handler *)

(** An accepted submission on a healthy connection appends one row to each
    table and reports success. *)
Lemma add_food_form_ok f s :
  validate f = true -> fault (conn s) = None ->
  add_food_form f s =
  (Returned tt,
   {| conn := {| db := db_after_add f (db (conn s)); fault := None |};
      page := page s ++ [st_success "New food listing added successfully!"] |}).
Proof.
  intros V F. unfold add_food_form. rewrite V.
  unfold try_except, sql_bind, insert_food_listing, insert_or_ignore_provider,
    execute, commit.
  rewrite F, insert_appends. cbn [db fault providers food_listings].
  rewrite insert_appends. reflexivity.
Qed.

(** A submission that fails the check only puts the warning on the page. *)
Lemma add_food_form_invalid f s :
  validate f = false ->
  add_food_form f s =
  (Returned tt,
   {| conn := conn s;
      page := page s
              ++ [st_warning "Please fill all required fields correctly."] |}).
Proof. intros V. unfold add_food_form. now rewrite V. Qed.

(** On a faulty connection the first statement raises: nothing is written
    and the failure is reported. *)
Lemma add_food_form_fault f s e :
  validate f = true -> fault (conn s) = Some e ->
  add_food_form f s =
  (Returned tt,
   {| conn := conn s;
      page := page s ++ [st_error ("Failed to add food listing: " ++ e)] |}).
Proof.
  intros V F. unfold add_food_form. rewrite V.
  unfold try_except, sql_bind, insert_food_listing, execute. rewrite F.
  reflexivity.
Qed.

Lemma validate_true f :
  validate f = true <->
  strip (food_id f) <> "" /\ strip (provider_id f) <> ""
  /\ strip (food_item f) <> "" /\ strip (location f) <> ""
  /\ strip (provider_name f) <> "" /\ strip (provider_contact f) <> ""
  /\ (Q2Qc 0 < quantity f)%Qc.
Proof.
  unfold validate, all. cbn [forallb].
  rewrite truthy_option_text, !andb_true_iff, !truthy_true, Qc_ltb_lt.
  tauto.
Qed.

(** C2: a submission with a non-positive quantity, or with a required text
    field that is empty once stripped, is turned down with the warning and
    changes nothing: the connection state, and so the row counts of
    food_listings and providers, are those from before the call. *)
Theorem invalid_input_no_mutation f s :
  (quantity f <= Q2Qc 0)%Qc
  \/ strip (food_id f) = "" \/ strip (provider_id f) = ""
  \/ strip (food_item f) = "" \/ strip (location f) = ""
  \/ strip (provider_name f) = "" \/ strip (provider_contact f) = "" ->
  let s' := snd (add_food_form f s) in
  fst (add_food_form f s) = Returned tt
  /\ page s' = (page s
                ++ [st_warning "Please fill all required fields correctly."])%list
  /\ conn s' = conn s
  /\ List.length (rows (food_listings (db (conn s'))))
     = List.length (rows (food_listings (db (conn s))))
  /\ List.length (rows (providers (db (conn s'))))
     = List.length (rows (providers (db (conn s)))).
Proof.
  intros H.
  assert (V : validate f = false).
  { apply not_true_iff_false. intros V. apply validate_true in V.
    destruct V as (V1 & V2 & V3 & V4 & V5 & V6 & Vq).
    destruct H as [H|H]; [exact (Qcle_not_lt _ _ H Vq) | tauto]. }
  cbv zeta. rewrite (add_food_form_invalid f s V). cbn. auto.
Qed.

Lemma invalid_input_no_mutation_witness :
  conn (snd (add_food_form blank_form fresh_session)) = conn fresh_session.
Proof.
  apply (invalid_input_no_mutation blank_form fresh_session).
  right. right. right. left. reflexivity.
Defined.

(** INSERT OR IGNORE never skips a provider: an accepted submission adds a
    row for its tuple even when rows with that tuple are already stored. *)
Lemma provider_insert_not_suppressed f s :
  validate f = true -> fault (conn s) = None ->
  provider_rows (strip (provider_name f)) (strip (provider_contact f))
    (strip (location f)) (db (conn (snd (add_food_form f s))))
  = S (provider_rows (strip (provider_name f)) (strip (provider_contact f))
         (strip (location f)) (db (conn s))).
Proof.
  intros V F. rewrite (add_food_form_ok f s V F).
  unfold provider_rows. cbn.
  rewrite filter_app, length_app. cbn. rewrite !String.eqb_refl. cbn. lia.
Qed.

(** C1: submitting the same valid form twice on fresh tables leaves two
    provider rows with the tuple (Asha, 555, Pune), not one: the schema
    declares no uniqueness on (Name, Contact, City), so the second
    INSERT OR IGNORE is not suppressed. *)
Theorem provider_upsert_twice :
  provider_rows "Asha" "555" "Pune"
    (db (conn (submit_all [bread_form; bread_form] fresh_session))) = 2.
Proof. vm_compute. reflexivity. Qed.





(** ** The loaders *)

(** C3 as stated fails: under a storage fault the provider lookup is not
    halted. *)
Lemma provider_lookup_not_halted :
  ~ fault_halts (load_providers_by_city "Pune") faulty_session.
Proof.
  intros H. assert (E : fault (conn faulty_session) <> None) by discriminate.
  specialize (H E). discriminate H.
Qed.

(** C3, amended: a storage fault while loading the listings is reported and
    halts the script; a storage fault while loading the providers of a city
    is reported too, but the loader then returns the empty frame and the
    script goes on, showing the "no providers" warning. *)
Theorem read_fault_handling s e city :
  fault (conn s) = Some e ->
  load_food_listings s =
    (Stopped,
     {| conn := conn s;
        page := (page s ++ [st_error "Failed to load food listings."])
                ++ [st_code e] |})
  /\ fst (show_listings s) = Stopped
  /\ load_providers_by_city city s =
       (Returned [],
        {| conn := conn s;
           page := (page s ++ [st_error "Error fetching contacts."])
                   ++ [st_code e] |})
  /\ show_contacts city s =
       (Returned tt,
        {| conn := conn s;
           page := ((page s ++ [st_error "Error fetching contacts."])
                    ++ [st_code e])
                   ++ [st_warning "No providers found in this city."] |}).
Proof.
  intros F.
  unfold show_listings, show_contacts, bind, load_food_listings,
    load_providers_by_city, try_except, read_food_listings,
    read_providers_by_city.
  rewrite F. cbn. destruct s as [c p]. cbn. auto.
Qed.

Lemma read_fault_handling_witness :
  fst (load_food_listings faulty_session) = Stopped
  /\ fst (load_providers_by_city "Pune" faulty_session) = Returned [].
Proof.
  destruct (read_fault_handling faulty_session "database is locked" "Pune"
              eq_refl) as (H1 & _ & H3 & _).
  rewrite H1, H3. split; reflexivity.
Defined.

(** ** What the handler stores *)

Lemma is_digit_digit n : is_digit (digit n) = true.
Proof.
  unfold digit.
  assert (B : (0 <= n mod 10 < 10)%Z) by (apply Z.mod_pos_bound; lia).
  assert (C : (n mod 10 = 0 \/ n mod 10 = 1 \/ n mod 10 = 2 \/ n mod 10 = 3
               \/ n mod 10 = 4 \/ n mod 10 = 5 \/ n mod 10 = 6
               \/ n mod 10 = 7 \/ n mod 10 = 8 \/ n mod 10 = 9)%Z) by lia.
  repeat (destruct C as [C|C]; [rewrite C; reflexivity|]).
  rewrite C. reflexivity.
Qed.

(** [strftime] always writes the shape YYYY-MM-DD. *)
Lemma is_ymd_strftime d : is_ymd (strftime_ymd d) = true.
Proof.
  unfold is_ymd, strftime_ymd, pad4, pad2. cbn [append list_ascii_of_string].
  cbn [forallb]. rewrite !is_digit_digit. reflexivity.
Qed.

Lemma digit_val_digit n : digit_val (digit n) = (n mod 10)%Z.
Proof.
  unfold digit, digit_val.
  assert (B : (0 <= n mod 10 < 10)%Z) by (apply Z.mod_pos_bound; lia).
  rewrite N_ascii_embedding by lia. lia.
Qed.

Lemma four_digits y :
  (0 <= y <= 9999)%Z ->
  (1000 * ((y / 1000) mod 10) + 100 * ((y / 100) mod 10)
   + 10 * ((y / 10) mod 10) + y mod 10 = y)%Z.
Proof. intros H. Z.to_euclidean_division_equations. lia. Qed.

Lemma two_digits m :
  (0 <= m <= 99)%Z -> (10 * ((m / 10) mod 10) + m mod 10 = m)%Z.
Proof. intros H. Z.to_euclidean_division_equations. lia. Qed.

Lemma days_in_month_le y m : (days_in_month y m <= 31)%Z.
Proof.
  unfold days_in_month. destruct m as [|p|p]; try lia.
  repeat (destruct p as [p|p|]; try lia); destruct (is_leap y); lia.
Qed.

(** A date written by [strftime] is read back by [to_datetime]. *)
Lemma to_datetime_strftime d :
  valid_date d = true -> in_timestamp_range d = true ->
  to_datetime (strftime_ymd d) = Some d.
Proof.
  intros V T. pose proof (is_ymd_strftime d) as Y. unfold to_datetime.
  rewrite Y. unfold strftime_ymd, pad4, pad2.
  cbn [append list_ascii_of_string]. rewrite !digit_val_digit.
  pose proof V as V0. unfold valid_date in V.
  rewrite !andb_true_iff, !Z.leb_le in V.
  pose proof (days_in_month_le (year d) (month d)).
  rewrite four_digits, !two_digits by lia.
  destruct d as [y m dd]. cbn [year month day] in *. now rewrite V0, T.
Qed.

Lemma listing_from_form i f :
  validate f = true -> listing_from f (listing_of_form i f).
Proof.
  intros V. apply validate_true in V.
  destruct V as (V1 & V2 & V3 & V4 & _).
  unfold listing_from, listing_of_form. cbn.
  repeat split; try reflexivity; try (now apply strip_trimmed).
  apply is_ymd_strftime.
Qed.

Lemma provider_from_form i f :
  validate f = true -> provider_from f (provider_of_form i f).
Proof.
  intros V. apply validate_true in V.
  destruct V as (_ & _ & _ & V4 & V5 & V6 & _).
  unfold provider_from, provider_of_form. cbn.
  repeat split; try reflexivity; now apply strip_trimmed.
Qed.

(** One submission either leaves the database alone or appends the rows
    built from the form. *)
Lemma add_food_form_db f s :
  db (conn (snd (add_food_form f s))) = db (conn s)
  \/ (validate f = true
      /\ db (conn (snd (add_food_form f s))) = db_after_add f (db (conn s))).
Proof.
  destruct (validate f) eqn:V.
  - destruct (fault (conn s)) as [e|] eqn:F.
    + left. now rewrite (add_food_form_fault f s e V F).
    + right. split; [reflexivity|]. now rewrite (add_food_form_ok f s V F).
  - left. now rewrite (add_food_form_invalid f s V).
Qed.

(** C10: whatever series of submissions the handler is given, the rows it
    adds to food_listings carry the stripped Food_ID, Provider_ID, Food_Item
    and Location of one of the submissions, and the rows it adds to
    providers the stripped Name, Contact and City; each of these values is
    non-empty with no whitespace at either end, and the stored Expiry_Date
    has the shape YYYY-MM-DD. *)
Theorem stored_rows_trimmed fs s :
  exists ls ps,
    rows (food_listings (db (conn (submit_all fs s))))
    = (rows (food_listings (db (conn s))) ++ ls)%list
    /\ rows (providers (db (conn (submit_all fs s))))
       = (rows (providers (db (conn s))) ++ ps)%list
    /\ Forall (fun r => exists f, In f fs /\ listing_from f r) ls
    /\ Forall (fun p => exists f, In f fs /\ provider_from f p) ps.
Proof.
  revert s. induction fs as [|f fs IH]; intros s.
  - exists [], []. cbn. rewrite !app_nil_r. auto.
  - cbn [submit_all].
    destruct (IH (snd (add_food_form f s))) as (ls & ps & El & Ep & Fl & Fp).
    assert (Wl : Forall (fun r => exists f0, In f0 (f :: fs) /\ listing_from f0 r) ls).
    { eapply Forall_impl; [|exact Fl]. intros r (f0 & I & L).
      exists f0. split; [now right | exact L]. }
    assert (Wp : Forall (fun p => exists f0, In f0 (f :: fs) /\ provider_from f0 p) ps).
    { eapply Forall_impl; [|exact Fp]. intros p (f0 & I & L).
      exists f0. split; [now right | exact L]. }
    destruct (add_food_form_db f s) as [E|[V E]]; rewrite E in El, Ep.
    + exists ls, ps. auto.
    + exists (listing_of_form (next_rowid l_id (food_listings (db (conn s)))) f
              :: ls),
             (provider_of_form (next_rowid p_id (providers (db (conn s)))) f
              :: ps).
      cbn in El, Ep. rewrite <- app_assoc in El, Ep.
      repeat split; trivial; constructor; trivial.
      * exists f. split; [now left | now apply listing_from_form].
      * exists f. split; [now left | now apply provider_from_form].
Qed.

(** ** Dashboard counts and sums *)

(** C7: the rows that are expired on [today], the rows with a parsed date
    that are not, and the rows whose date did not parse add up to all rows:
    the three kinds partition the frame. *)
Theorem expiry_partition today (df : Frame) :
  num_expired today df + num_not_expired today df + num_unparsable df
  = total_listings df.
Proof.
  unfold num_expired, expired_items, num_not_expired, num_unparsable,
    total_listings.
  induction df as [|r df IH]; [reflexivity|].
  cbn [filter List.length]. unfold ts_ltb at 1.
  destruct (Expiry_Date r) as [d|]; [destruct (date_ltb d today)|];
    cbn [negb List.length]; lia.
Qed.

Lemma fold_plus_acc (l : list Qc) (a : Qc) :
  fold_left Qcplus l a = (a + sum l)%Qc.
Proof.
  unfold sum. revert a. induction l as [|q l IH]; intros a; cbn.
  - ring.
  - rewrite IH, (IH (Q2Qc 0 + q)%Qc). ring.
Qed.

Lemma sum_cons q l : sum (q :: l) = (q + sum l)%Qc.
Proof. unfold sum at 1. cbn. rewrite fold_plus_acc. ring. Qed.





(** C9: for the listings (Apple, 10, 2099-01-01), (Apple, 5, 2099-02-01),
    (Bread, 3, 2020-01-01) seen on 2024-01-01, one listing is expired, the
    total quantity is 18 and the top food item is Apple with 15. *)
Theorem sample_aggregates :
  num_expired (mkDate 2024 1 1) (prepare sample_listings) = 1
  /\ total_quantity (prepare sample_listings) = kg 18 1
  /\ top_food_items 1 (prepare sample_listings) = [("Apple", kg 15 1)].
Proof.
  split; [reflexivity|]. split.
  - apply Qc_is_canon. reflexivity.
  - assert (E : forall k (p q : Qc), p = q -> [(k : string, p)] = [(k, q)])
      by (intros; subst; reflexivity).
    apply E, Qc_is_canon. reflexivity.
Qed.

(** C5: a single stored row whose Expiry_Date does not parse is shown in
    the Not Expired bucket of the expiry table. *)
Theorem undated_counted_not_expired :
  num_unparsable (prepare undated_listings) = 1
  /\ expiry_status (mkDate 2024 1 1) (prepare undated_listings)
     = [("Not Expired", 1)].
Proof. split; reflexivity. Qed.

(** ** Order of the group keys *)

Lemma ascii_compare_lt_trans a b c :
  Ascii.compare a b = Lt -> Ascii.compare b c = Lt -> Ascii.compare a c = Lt.
Proof.
  unfold Ascii.compare. rewrite !N.compare_lt_iff. apply N.lt_trans.
Qed.

Lemma compare_lt_trans a b c :
  String.compare a b = Lt -> String.compare b c = Lt ->
  String.compare a c = Lt.
Proof.
  revert b c. induction a as [|x a IH]; intros [|y b] [|z c]; cbn;
    try congruence.
  destruct (Ascii.compare x y) eqn:Exy; try discriminate;
    destruct (Ascii.compare y z) eqn:Eyz; try discriminate; intros H1 H2.
  - apply Ascii.compare_eq_iff in Exy, Eyz. subst.
    assert (R : Ascii.compare z z = Eq) by apply N.compare_refl.
    rewrite R. eauto.
  - apply Ascii.compare_eq_iff in Exy. subst. now rewrite Eyz.
  - apply Ascii.compare_eq_iff in Eyz. subst. now rewrite Exy.
  - now rewrite (ascii_compare_lt_trans _ _ _ Exy Eyz).
Qed.

Lemma compare_gt_lt a b : String.compare a b = Gt -> String.compare b a = Lt.
Proof. intros H. rewrite String.compare_antisym, H. reflexivity. Qed.


Lemma compare_refl a : String.compare a a = Eq.
Proof.
  induction a as [|x a IH]; cbn; [reflexivity|].
  assert (R : Ascii.compare x x = Eq) by apply N.compare_refl.
  now rewrite R.
Qed.

(** ** Grouping *)

Lemma group_add_above k0 k q g :
  String.compare k0 k = Lt ->
  Forall (fun b : string * Qc => String.compare k0 (fst b) = Lt) g ->
  Forall (fun b : string * Qc => String.compare k0 (fst b) = Lt)
    (group_add k q g).
Proof.
  intros Hk. induction g as [|[k' s] g IH]; intros F; cbn [group_add].
  - auto.
  - inversion_clear F as [|? ? Fh Ft].
    destruct (String.compare k k'); auto.
Qed.

Lemma group_add_ascending k q g :
  keys_ascending g -> keys_ascending (group_add k q g).
Proof.
  unfold keys_ascending.
  induction g as [|[k' s] g IH]; intros S; cbn [group_add].
  - repeat constructor.
  - apply StronglySorted_inv in S. destruct S as [S F].
    destruct (String.compare k k') eqn:E.
    + constructor; assumption.
    + constructor; [constructor; assumption|].
      constructor; [exact E|].
      eapply Forall_impl; [|exact F]. cbn. intros b Hb.
      eapply compare_lt_trans; eauto.
    + constructor; [auto|].
      apply group_add_above; [now apply compare_gt_lt | exact F].
Qed.

Lemma groupby_sum_ascending key (df : Frame) :
  keys_ascending (groupby_sum key df).
Proof.
  unfold groupby_sum.
  assert (G : forall g, keys_ascending g ->
              keys_ascending
                (fold_left (fun g r => group_add (key r) (Quantity r) g) df g)).
  { induction df as [|r df IH]; intros g Hg; cbn; [exact Hg|].
    apply IH, group_add_ascending, Hg. }
  apply G. constructor.
Qed.





(** ** Sorting *)

Section SortFacts.
Context {K V : Type} (leb : V -> V -> bool).

Lemma insert_sorted_perm (x : K * V) l :
  Permutation (insert_sorted leb x l) (x :: l).
Proof.
  induction l as [|y l IH]; cbn; [reflexivity|].
  destruct (leb (snd x) (snd y)); [reflexivity|].
  rewrite IH. apply perm_swap.
Qed.

Lemma stable_sort_perm (l : list (K * V)) :
  Permutation (stable_sort leb l) l.
Proof.
  induction l as [|x l IH]; cbn; [reflexivity|].
  rewrite insert_sorted_perm. now constructor.
Qed.

Lemma sort_values_perm asc (l : list (K * V)) :
  Permutation (sort_values leb asc l) l.
Proof.
  destruct asc; cbn; [apply stable_sort_perm|].
  rewrite <- Permutation_rev, stable_sort_perm. symmetry.
  apply Permutation_rev.
Qed.
End SortFacts.

Section StronglySortedFacts.
Context {A : Type}.

Lemma StronglySorted_app (R : A -> A -> Prop) l1 l2 :
  StronglySorted R l1 -> StronglySorted R l2 ->
  (forall a b, In a l1 -> In b l2 -> R a b) ->
  StronglySorted R (l1 ++ l2).
Proof.
  induction l1 as [|x l1 IH]; intros S1 S2 C; cbn; [exact S2|].
  apply StronglySorted_inv in S1. destruct S1 as [S1 F1].
  constructor.
  - apply IH; auto. intros a b Ha Hb. apply C; [now right | exact Hb].
  - apply Forall_app. split; [exact F1|].
    apply Forall_forall. intros b Hb. apply C; [now left | exact Hb].
Qed.

Lemma StronglySorted_rev (R : A -> A -> Prop) l :
  StronglySorted R l -> StronglySorted (fun a b => R b a) (rev l).
Proof.
  induction l as [|x l IH]; intros S; cbn; [constructor|].
  apply StronglySorted_inv in S. destruct S as [S F].
  apply StronglySorted_app; [auto | repeat constructor |].
  intros a b Ha [<-|[]]. apply in_rev in Ha.
  rewrite Forall_forall in F. now apply F.
Qed.


End StronglySortedFacts.

Lemma asc_tie_desc_le a b : asc_tie_desc a b -> (snd a <= snd b)%Qc.
Proof.
  intros [H|[H _]]; [now apply Qclt_le_weak | rewrite H; apply Qcle_refl].
Qed.

(** Inserting an element whose key is above all keys of a sorted list. *)
Lemma insert_sorted_ordered x l :
  StronglySorted asc_tie_desc l ->
  Forall (fun y => String.compare (fst y) (fst x) = Lt) l ->
  StronglySorted asc_tie_desc (insert_sorted Qc_leb x l).
Proof.
  induction l as [|y l IH]; intros S F; cbn.
  - repeat constructor.
  - pose proof S as S0.
    apply StronglySorted_inv in S. destruct S as [S Fy].
    destruct (Qc_leb (snd x) (snd y)) eqn:E.
    + apply Qc_leb_le in E. constructor; [exact S0|].
      rewrite Forall_forall in *. intros z Hz.
      assert (Hyz : (snd y <= snd z)%Qc).
      { destruct Hz as [<-|Hz]; [apply Qcle_refl|].
        apply asc_tie_desc_le, Fy, Hz. }
      destruct (Qcle_lt_or_eq _ _ (Qcle_trans _ _ _ E Hyz)) as [L|Q].
      * now left.
      * right. split; [exact Q | now apply F].
    + apply Qc_leb_gt in E. inversion_clear F as [|? ? Fh Ft].
      constructor; [now apply IH|].
      rewrite (insert_sorted_perm Qc_leb x l).
      constructor; [now left | exact Fy].
Qed.

(** The stable sort of a list with strictly descending keys. *)
Lemma stable_sort_ordered l :
  StronglySorted (fun a b : string * Qc =>
                    String.compare (fst b) (fst a) = Lt) l ->
  StronglySorted asc_tie_desc (stable_sort Qc_leb l).
Proof.
  induction l as [|x l IH]; intros S; cbn; [constructor|].
  apply StronglySorted_inv in S. destruct S as [S F].
  apply insert_sorted_ordered; [now apply IH|].
  now rewrite (stable_sort_perm Qc_leb l).
Qed.

(** Sorting a grouped series by descending sum leaves equal sums in
    ascending key order. *)
Lemma sort_values_desc_ordered g :
  keys_ascending g ->
  StronglySorted desc_tie_asc (sort_values Qc_leb false g).
Proof.
  intros S. cbn.
  apply (StronglySorted_rev asc_tie_desc), stable_sort_ordered.
  apply (StronglySorted_rev _ _ S).
Qed.





(** ** The expiry table *)

Lemma unique_fold (col acc : list bool) :
  NoDup acc ->
  let u := fold_left (fun acc b => if existsb (Bool.eqb b) acc then acc
                                   else (acc ++ [b])%list) col acc in
  NoDup u /\ (forall v, In v u <-> In v acc \/ In v col).
Proof.
  revert acc. induction col as [|b col IH]; intros acc N; cbn.
  - split; [exact N | intros v; tauto].
  - destruct (existsb (Bool.eqb b) acc) eqn:E.
    + destruct (IH acc N) as [N' I]. split; [exact N'|].
      intros v. rewrite (I v). apply existsb_exists in E.
      destruct E as (x & Hx & Ex). apply Bool.eqb_prop in Ex. subst x.
      intuition (subst; auto).
    + assert (Nb : NoDup (acc ++ [b])).
      { apply NoDup_app; [exact N | repeat constructor; intros [] |].
        intros x Hx [<-|[]].
        apply not_true_iff_false in E. apply E, existsb_exists.
        exists b. split; [exact Hx | now destruct b]. }
      destruct (IH _ Nb) as [N' I]. split; [exact N'|].
      intros v. rewrite (I v), in_app_iff. cbn. tauto.
Qed.

Lemma unique_NoDup col : NoDup (unique col).
Proof. apply (unique_fold col []). constructor. Qed.

Lemma unique_In col v : In v (unique col) <-> In v col.
Proof.
  destruct (unique_fold col [] (NoDup_nil _)) as [_ I].
  unfold unique. rewrite (I v). cbn. tauto.
Qed.

Lemma count_for_not_in b t : ~ In b (map fst t) -> count_for b t = 0.
Proof.
  induction t as [|[v n] t IH]; cbn; [reflexivity|]. intros H.
  destruct (Bool.eqb v b) eqn:E.
  - apply Bool.eqb_prop in E. tauto.
  - apply IH. tauto.
Qed.

(** A table with one entry per value reads the same in any order. *)
Lemma count_for_perm b t t' :
  NoDup (map fst t) -> Permutation t t' -> count_for b t = count_for b t'.
Proof.
  intros N P. induction P as [|[v n] t t' P IH|[v n] [w m] t|t t' t'' P1 IH1 P2 IH2].
  - reflexivity.
  - cbn. inversion_clear N. rewrite IH; auto.
  - cbn. destruct (Bool.eqb w b) eqn:Ew, (Bool.eqb v b) eqn:Ev; try reflexivity.
    apply Bool.eqb_prop in Ew, Ev. subst. cbn in N.
    inversion_clear N as [|? ? Hn _]. cbn in Hn. tauto.
  - rewrite IH1; [apply IH2|]; trivial.
    eapply Permutation_NoDup; [|exact N]. now apply Permutation_map.
Qed.

Lemma count_for_value_counts b col :
  count_for b (value_counts col) = count_occ bool_dec col b.
Proof.
  unfold value_counts.
  set (t := map (fun v => (v, count_occ bool_dec col v)) (unique col)).
  assert (Ft : map fst t = unique col).
  { unfold t. rewrite map_map. cbn. apply map_id. }
  rewrite <- (count_for_perm b t).
  - destruct (in_dec bool_dec b col) as [I|I].
    + apply unique_In in I. unfold t. clear Ft t.
      induction (unique col) as [|v u IH]; [destruct I|]. cbn.
      destruct (Bool.eqb v b) eqn:E.
      * apply Bool.eqb_prop in E. now subst.
      * destruct I as [->|I]; [now rewrite Bool.eqb_reflx in E | auto].
    + rewrite count_for_not_in.
      * symmetry. now apply count_occ_not_In.
      * rewrite Ft, unique_In. exact I.
  - rewrite Ft. apply unique_NoDup.
  - symmetry. apply sort_values_perm.
Qed.

Lemma bucket_expiry_status today (df : Frame) :
  bucket "Expired" (expiry_status today df)
  = count_for true (value_counts (Is_Expired today df))
  /\ bucket "Not Expired" (expiry_status today df)
     = count_for false (value_counts (Is_Expired today df)).
Proof.
  unfold expiry_status.
  induction (value_counts (Is_Expired today df)) as [|[[|] n] t [IH1 IH2]];
    cbn; auto.
Qed.

Lemma count_occ_map_true {A} (f : A -> bool) l :
  count_occ bool_dec (map f l) true = List.length (filter f l).
Proof.
  induction l as [|x l IH]; cbn; [reflexivity|].
  destruct (f x); destruct (bool_dec _ _); cbn; congruence.
Qed.

Lemma count_occ_map_false {A} (f : A -> bool) l :
  count_occ bool_dec (map f l) false
  = List.length (filter (fun x => negb (f x)) l).
Proof.
  induction l as [|x l IH]; cbn; [reflexivity|].
  destruct (f x); destruct (bool_dec _ _); cbn; congruence.
Qed.

(** The Expired bucket is the count of expired rows; the Not Expired bucket
    holds every other row, those whose date did not parse included. *)
Lemma expiry_status_buckets today (df : Frame) :
  bucket "Expired" (expiry_status today df) = num_expired today df
  /\ bucket "Not Expired" (expiry_status today df)
     = num_not_expired today df + num_unparsable df.
Proof.
  destruct (bucket_expiry_status today df) as [-> ->].
  rewrite !count_for_value_counts. unfold Is_Expired.
  rewrite count_occ_map_true, count_occ_map_false. split; [reflexivity|].
  unfold num_not_expired, num_unparsable.
  induction df as [|r df IH]; [reflexivity|].
  cbn [filter]. unfold ts_ltb at 1.
  destruct (Expiry_Date r) as [d|]; [destruct (date_ltb d today)|];
    cbn [negb List.length]; lia.
Qed.

(* ================================================================== *)
(** * Further properties of the form handler and the loaders *)





(** The keys of a table are pairwise distinct. *)
Lemma next_rowid_above {R} (rowid : R -> nat) (t : Table R) r :
  In r (rows t) -> rowid r < next_rowid rowid t.
Proof.
  intros I. unfold next_rowid.
  assert (rowid r <= list_max (map rowid (rows t)))
    by (apply list_max_ge, in_map, I).
  lia.
Qed.

Lemma NoDup_snoc_fresh {R} (rowid : R -> nat) (t : Table R) (mk : nat -> R) :
  (forall i, rowid (mk i) = i) ->
  NoDup (map rowid (rows t)) ->
  NoDup (map rowid (rows t ++ [mk (next_rowid rowid t)])).
Proof.
  intros Hmk N. rewrite map_app. cbn. rewrite Hmk.
  apply (Permutation_NoDup (Permutation_cons_append _ _)).
  constructor; [|exact N]. intros I. apply in_map_iff in I.
  destruct I as (r & E & I). apply (next_rowid_above rowid) in I. lia.
Qed.

(** X3: the handler keeps the primary keys of both tables pairwise
    distinct, whatever series of submissions it is given. *)
Theorem primary_keys_stay_distinct fs s :
  NoDup (map l_id (rows (food_listings (db (conn s))))) ->
  NoDup (map p_id (rows (providers (db (conn s))))) ->
  NoDup (map l_id (rows (food_listings (db (conn (submit_all fs s))))))
  /\ NoDup (map p_id (rows (providers (db (conn (submit_all fs s)))))).
Proof.
  revert s. induction fs as [|f fs IH]; intros s Nl Np; [now split|].
  cbn [submit_all]. apply IH;
    destruct (add_food_form_db f s) as [E|[_ E]]; rewrite E; trivial; cbn.
  - apply (NoDup_snoc_fresh l_id (food_listings (db (conn s)))
             (fun i => listing_of_form i f)); [reflexivity | exact Nl].
  - apply (NoDup_snoc_fresh p_id (providers (db (conn s)))
             (fun i => provider_of_form i f)); [reflexivity | exact Np].
Qed.

Lemma primary_keys_stay_distinct_witness :
  NoDup (map l_id (rows (food_listings (db (conn
           (submit_all [bread_form; bread_form] fresh_session)))))).
Proof.
  apply (primary_keys_stay_distinct [bread_form; bread_form] fresh_session);
    constructor.
Defined.

Lemma add_food_form_fault_kept f s :
  fault (conn (snd (add_food_form f s))) = fault (conn s).
Proof.
  destruct (validate f) eqn:V.
  - destruct (fault (conn s)) as [e|] eqn:F.
    + now rewrite (add_food_form_fault f s e V F).
    + now rewrite (add_food_form_ok f s V F).
  - now rewrite (add_food_form_invalid f s V).
Qed.





(** X6: the form handler never halts the script: whatever the submission
    and the state of the storage it returns, having put exactly one message
    on the page and left the fault state of the connection alone. *)
Theorem add_food_form_returns f s :
  fst (add_food_form f s) = Returned tt
  /\ (exists m, page (snd (add_food_form f s)) = (page s ++ [m])%list)
  /\ fault (conn (snd (add_food_form f s))) = fault (conn s).
Proof.
  split; [|split; [|apply add_food_form_fault_kept]];
    destruct (validate f) eqn:V;
    try (rewrite (add_food_form_invalid f s V); cbn; eauto);
    destruct (fault (conn s)) as [e|] eqn:F;
    try (rewrite (add_food_form_fault f s e V F); cbn; eauto);
    rewrite (add_food_form_ok f s V F); cbn; eauto.
Qed.

(** X7: the two loaders only read: whether they succeed or meet a fault,
    the connection state is the one from before, and what was on the page
    stays there. *)
Theorem loaders_read_only s city :
  conn (snd (load_food_listings s)) = conn s
  /\ conn (snd (load_providers_by_city city s)) = conn s
  /\ (exists ms, page (snd (load_food_listings s)) = (page s ++ ms)%list)
  /\ (exists ms,
        page (snd (load_providers_by_city city s)) = (page s ++ ms)%list).
Proof.
  unfold load_food_listings, load_providers_by_city, try_except,
    read_food_listings, read_providers_by_city, bind.
  destruct (fault (conn s)) as [e|]; cbn; repeat split;
    try (exists []; now rewrite app_nil_r);
    eexists; rewrite <- app_assoc; reflexivity.
Qed.



(** ** From the form to the dashboard *)

Local Open Scope list_scope.





(** X10: the text that the handler stores for a calendar date inside the
    timestamp range is read back by the dashboard as that very date, so the
    row counts as expired exactly when the date is before today. *)
Theorem stored_date_round_trip d today :
  valid_date d = true -> in_timestamp_range d = true ->
  to_datetime (strftime_ymd d) = Some d
  /\ ts_ltb (to_datetime (strftime_ymd d)) today = date_ltb d today.
Proof.
  intros V T. rewrite (to_datetime_strftime d V T). split; reflexivity.
Qed.

Lemma stored_date_round_trip_witness :
  to_datetime (strftime_ymd (mkDate 2024 2 29)) = Some (mkDate 2024 2 29)
  /\ ts_ltb (to_datetime (strftime_ymd (mkDate 2024 2 29))) (mkDate 2024 3 1)
     = date_ltb (mkDate 2024 2 29) (mkDate 2024 3 1).
Proof.
  apply (stored_date_round_trip (mkDate 2024 2 29) (mkDate 2024 3 1));
    reflexivity.
Defined.

Lemma fill_unknown_nonempty s : fill_unknown s <> "".
Proof.
  unfold fill_unknown. destruct (String.eqb s "") eqn:E; [discriminate|].
  now apply String.eqb_neq.
Qed.

Lemma fill_unknown_keeps s : s <> "" -> fill_unknown s = s.
Proof.
  intros H. unfold fill_unknown. apply String.eqb_neq in H. now rewrite H.
Qed.

(** X11: preparing the frame keeps the rows, their order, keys, quantities
    and locations; afterwards no Food_Item and no Meal_Type is empty, and
    a value that was not empty is kept as it was. *)
Theorem prepare_cleans (df : list (Listing string)) :
  total_listings (prepare df) = List.length df
  /\ map l_id (prepare df) = map l_id df
  /\ map Quantity (prepare df) = map Quantity df
  /\ map Location (prepare df) = map Location df
  /\ Forall (fun r => Food_Item r <> "" /\ Meal_Type r <> "") (prepare df)
  /\ Forall2 (fun r r' =>
                (Food_Item r <> "" -> Food_Item r' = Food_Item r)
                /\ (Meal_Type r <> "" -> Meal_Type r' = Meal_Type r))
       df (prepare df).
Proof.
  unfold total_listings, prepare. rewrite length_map, !map_map. cbn.
  repeat split; trivial.
  - induction df; constructor; trivial. cbn.
    split; apply fill_unknown_nonempty.
  - induction df; constructor; trivial. cbn.
    split; apply fill_unknown_keeps.
Qed.

(* ================================================================== *)
(** * Further properties of the dashboard *)

Section GroupByFacts.
Context {K V : Type} (cmp : K -> K -> comparison) (add : V -> V -> V).
Hypothesis cmp_eq : forall a b, cmp a b = Eq -> a = b.
Hypothesis cmp_refl : forall a, cmp a a = Eq.
Hypothesis cmp_lt_trans :
  forall a b c, cmp a b = Lt -> cmp b c = Lt -> cmp a c = Lt.
Hypothesis cmp_gt_lt : forall a b, cmp a b = Gt -> cmp b a = Lt.

Lemma cmp_lt_not_eq a b : cmp a b = Lt -> cmp b a <> Eq.
Proof.
  intros L E. apply cmp_eq in E. subst. rewrite cmp_refl in L. discriminate.
Qed.

Lemma group_add_by_keys k k' v (g : list (K * V)) :
  In k (map fst (group_add_by cmp add k' v g)) <-> k = k' \/ In k (map fst g).
Proof.
  induction g as [|[k0 s] g IH]; cbn.
  - intuition.
  - destruct (cmp k' k0) eqn:E; cbn.
    + apply cmp_eq in E. subst. intuition congruence.
    + intuition congruence.
    + rewrite IH. intuition congruence.
Qed.

Lemma group_add_by_above k0 k v (g : list (K * V)) :
  cmp k0 k = Lt ->
  Forall (fun b => cmp k0 (fst b) = Lt) g ->
  Forall (fun b => cmp k0 (fst b) = Lt) (group_add_by cmp add k v g).
Proof.
  intros Hk. induction g as [|[k' s] g IH]; intros F; cbn.
  - auto.
  - inversion_clear F as [|? ? Fh Ft]. destruct (cmp k k'); auto.
Qed.

Lemma group_add_by_ascending k v (g : list (K * V)) :
  ascending_by cmp g -> ascending_by cmp (group_add_by cmp add k v g).
Proof.
  unfold ascending_by. induction g as [|[k' s] g IH]; intros S; cbn.
  - repeat constructor.
  - apply StronglySorted_inv in S. destruct S as [S F].
    destruct (cmp k k') eqn:E.
    + constructor; assumption.
    + constructor; [constructor; assumption|].
      constructor; [exact E|].
      eapply Forall_impl; [|exact F]. cbn. intros b Hb.
      eapply cmp_lt_trans; eauto.
    + constructor; [auto|].
      apply group_add_by_above; [now apply cmp_gt_lt | exact F].
Qed.

Lemma groupby_agg_snoc {R} (key : R -> K) (val : R -> V) df r :
  groupby_agg cmp add key val (df ++ [r])
  = group_add_by cmp add (key r) (val r) (groupby_agg cmp add key val df).
Proof. unfold groupby_agg. now rewrite fold_left_app. Qed.

Lemma groupby_agg_ascending {R} (key : R -> K) (val : R -> V) df :
  ascending_by cmp (groupby_agg cmp add key val df).
Proof.
  induction df as [|r df IH] using rev_ind; [constructor|].
  rewrite groupby_agg_snoc. now apply group_add_by_ascending.
Qed.

Lemma groupby_agg_keys {R} (key : R -> K) (val : R -> V) df k :
  In k (map fst (groupby_agg cmp add key val df))
  <-> exists r, In r df /\ key r = k.
Proof.
  induction df as [|r df IH] using rev_ind.
  - cbn. split; [tauto | intros (r & [] & _)].
  - rewrite groupby_agg_snoc, group_add_by_keys, IH. split.
    + intros [->|(r0 & I & E)].
      * exists r. split; [apply in_or_app; right; now left | reflexivity].
      * exists r0. split; [apply in_or_app; now left | exact E].
    + intros (r0 & I & E). apply in_app_or in I.
      destruct I as [I|[<-|[]]]; [right; eauto | now left].
Qed.

Lemma group_get_none k (g : list (K * V)) :
  Forall (fun b => cmp k (fst b) = Lt) g -> group_get cmp k g = None.
Proof.
  induction 1 as [|[k0 s] g L _ IH]; cbn in *; [reflexivity|].
  now rewrite L.
Qed.

Lemma group_get_add k k' v (g : list (K * V)) :
  ascending_by cmp g ->
  group_get cmp k (group_add_by cmp add k' v g)
  = match cmp k k' with
    | Eq => Some (match group_get cmp k g with
                  | Some s => add s v
                  | None => v
                  end)
    | _ => group_get cmp k g
    end.
Proof.
  unfold ascending_by. induction g as [|[k0 s] g IH]; intros S; cbn.
  - destruct (cmp k k'); reflexivity.
  - apply StronglySorted_inv in S. destruct S as [S F].
    destruct (cmp k' k0) eqn:E; cbn.
    + apply cmp_eq in E. subst. destruct (cmp k k0); reflexivity.
    + destruct (cmp k k') eqn:E'; try reflexivity.
      apply cmp_eq in E'. subst. rewrite E.
      rewrite group_get_none; [reflexivity|].
      eapply Forall_impl; [|exact F]. cbn. intros b Hb.
      eapply cmp_lt_trans; eauto.
    + rewrite (IH S). destruct (cmp k k0) eqn:E0; [|reflexivity..].
      apply cmp_eq in E0. subst. now rewrite (cmp_gt_lt _ _ E).
Qed.

Lemma reduce_snoc (l : list V) v :
  reduce add (l ++ [v])
  = Some (match reduce add l with Some s => add s v | None => v end).
Proof.
  destruct l as [|a l]; cbn; [reflexivity|]. now rewrite fold_left_app.
Qed.

(** The entry of a key is the fold of the values of its rows. *)
Lemma group_get_groupby {R} (key : R -> K) (val : R -> V) df k :
  group_get cmp k (groupby_agg cmp add key val df)
  = reduce add (map val (filter (in_group cmp key k) df)).
Proof.
  induction df as [|r df IH] using rev_ind; [reflexivity|].
  rewrite groupby_agg_snoc, group_get_add by apply groupby_agg_ascending.
  rewrite filter_app, map_app, IH. cbn [filter].
  change (in_group cmp key k r)
    with (match cmp k (key r) with Eq => true | _ => false end).
  destruct (cmp k (key r)); cbn [map]; rewrite ?app_nil_r; trivial.
  apply eq_sym, reduce_snoc.
Qed.

Lemma In_group_get k s (g : list (K * V)) :
  ascending_by cmp g -> In (k, s) g -> group_get cmp k g = Some s.
Proof.
  unfold ascending_by. induction g as [|[k0 s0] g IH]; intros S I; [destruct I|].
  apply StronglySorted_inv in S. destruct S as [S F]. cbn.
  destruct I as [[= -> ->]|I]; [now rewrite cmp_refl|].
  rewrite Forall_forall in F. specialize (F _ I). cbn in F.
  destruct (cmp k k0) eqn:E; [|auto..].
  now apply cmp_lt_not_eq in F.
Qed.

Lemma ascending_by_NoDup (g : list (K * V)) :
  ascending_by cmp g -> NoDup (map fst g).
Proof.
  unfold ascending_by. induction 1 as [|[k s] g S IH F]; cbn; constructor;
    trivial.
  intros I. apply in_map_iff in I. destruct I as ([k' s'] & E & I).
  cbn in E. subst k'. rewrite Forall_forall in F. specialize (F _ I).
  cbn in F. rewrite cmp_refl in F. discriminate.
Qed.
End GroupByFacts.

Section UniqueFacts.
Context {A : Type} (eqb : A -> A -> bool).
Hypothesis eqb_true : forall a b, eqb a b = true <-> a = b.

Lemma unique_by_fold (col acc : list A) :
  NoDup acc ->
  let u := fold_left (fun acc a => if existsb (eqb a) acc then acc
                                   else acc ++ [a]) col acc in
  NoDup u /\ (forall v, In v u <-> In v acc \/ In v col).
Proof.
  revert acc. induction col as [|b col IH]; intros acc N; cbn.
  - split; [exact N | intros v; tauto].
  - destruct (existsb (eqb b) acc) eqn:E.
    + destruct (IH acc N) as [N' I]. split; [exact N'|].
      intros v. rewrite (I v). apply existsb_exists in E.
      destruct E as (x & Hx & Ex). apply eqb_true in Ex. subst x.
      intuition (subst; auto).
    + assert (Nb : NoDup (acc ++ [b])).
      { apply NoDup_app; [exact N | repeat constructor; intros [] |].
        intros x Hx [<-|[]].
        apply not_true_iff_false in E. apply E, existsb_exists.
        exists b. split; [exact Hx | now apply eqb_true]. }
      destruct (IH _ Nb) as [N' I]. split; [exact N'|].
      intros v. rewrite (I v), in_app_iff. cbn. tauto.
Qed.

Lemma unique_by_NoDup col : NoDup (unique_by eqb col).
Proof. apply (unique_by_fold col []). constructor. Qed.

Lemma unique_by_In col v : In v (unique_by eqb col) <-> In v col.
Proof.
  destruct (unique_by_fold col [] (NoDup_nil _)) as [_ I].
  unfold unique_by. rewrite (I v). cbn. tauto.
Qed.
End UniqueFacts.

(** ** Grouped sums *)

Lemma group_add_by_string k q g :
  group_add_by String.compare Qcplus k q g = group_add k q g.
Proof. reflexivity. Qed.

Lemma groupby_sum_agg key (df : Frame) :
  groupby_sum key df = groupby_agg String.compare Qcplus key Quantity df.
Proof. reflexivity. Qed.

Lemma in_group_string {R} (key : R -> string) k r :
  in_group String.compare key k r = String.eqb (key r) k.
Proof.
  unfold in_group. destruct (String.compare k (key r)) eqn:E.
  - apply String.compare_eq_iff in E. subst. now rewrite String.eqb_refl.
  - symmetry. apply String.eqb_neq. intros H.
    rewrite H, compare_refl in E. discriminate.
  - symmetry. apply String.eqb_neq. intros H.
    rewrite H, compare_refl in E. discriminate.
Qed.

Lemma reduce_sum (l : list Qc) : l <> [] -> reduce Qcplus l = Some (sum l).
Proof.
  destruct l as [|q l]; [congruence|]. intros _. unfold reduce.
  now rewrite fold_plus_acc, sum_cons.
Qed.

Lemma groupby_sum_NoDup key (df : Frame) :
  NoDup (map fst (groupby_sum key df)).
Proof.
  apply (ascending_by_NoDup String.compare compare_refl).
  apply groupby_sum_ascending.
Qed.

Lemma groupby_sum_In_key key (df : Frame) k :
  In k (map fst (groupby_sum key df)) <-> exists r, In r df /\ key r = k.
Proof.
  rewrite groupby_sum_agg.
  apply (groupby_agg_keys String.compare Qcplus String.compare_eq_iff).
Qed.

(** X12: a grouped sum has one entry per distinct value of the grouping
    column, nothing else, and lists them by strictly ascending key. *)
Theorem groupby_sum_keys key (df : Frame) :
  NoDup (map fst (groupby_sum key df))
  /\ StronglySorted (fun a b => String.compare a b = Lt)
       (map fst (groupby_sum key df))
  /\ (forall k, In k (map fst (groupby_sum key df))
                <-> exists r, In r df /\ key r = k).
Proof.
  split; [apply groupby_sum_NoDup | split; [|apply groupby_sum_In_key]].
  pose proof (groupby_sum_ascending key df) as S.
  unfold keys_ascending in S.
  induction S as [|a g S IH F]; cbn; constructor; trivial.
  now apply Forall_map.
Qed.

(** X13: the sum listed for a key is the sum of the quantities of exactly
    the rows that carry this key. *)
Theorem groupby_sum_entry key (df : Frame) k s :
  In (k, s) (groupby_sum key df) ->
  s = sum (map Quantity (filter (fun r => String.eqb (key r) k) df)).
Proof.
  intros I. pose proof (groupby_sum_ascending key df) as S.
  rewrite groupby_sum_agg in *.
  pose proof (In_group_get String.compare String.compare_eq_iff compare_refl
                k s _ S I) as G.
  rewrite (group_get_groupby String.compare Qcplus String.compare_eq_iff
             compare_lt_trans compare_gt_lt) in G.
  rewrite (filter_ext _ _ (in_group_string key k)) in G.
  destruct (filter (fun r => String.eqb (key r) k) df) as [|r l];
    [discriminate|].
  rewrite reduce_sum in G by discriminate. now injection G.
Qed.

Lemma groupby_sum_entry_witness :
  kg 15 1
  = sum (map Quantity
           (filter (fun r => String.eqb (Food_Item r) "Apple")
              (prepare sample_listings))).
Proof.
  apply (groupby_sum_entry Food_Item (prepare sample_listings) "Apple").
  left. apply f_equal, Qc_is_canon. reflexivity.
Defined.


(** ** The top food items *)

Lemma StronglySorted_app_inv {A} (R : A -> A -> Prop) l1 l2 a b :
  StronglySorted R (l1 ++ l2) -> In a l1 -> In b l2 -> R a b.
Proof.
  induction l1 as [|x l1 IH]; cbn; intros S Ia Ib; [destruct Ia|].
  apply StronglySorted_inv in S. destruct S as [S F].
  destruct Ia as [<-|Ia]; [|now apply IH].
  rewrite Forall_forall in F. apply F, in_or_app. now right.
Qed.

Lemma NoDup_firstn {A} n (l : list A) : NoDup l -> NoDup (firstn n l).
Proof.
  intros N. rewrite <- (firstn_skipn n l) in N.
  now apply NoDup_app_remove_r in N.
Qed.

(** X15: the entries of top_food_items n are entries of the grouped sums,
    one per food item; every group left out weighs at most as much as every
    group listed; and when there are no more than n groups, all are
    listed. *)
Theorem top_food_items_are_top n (df : Frame) :
  incl (top_food_items n df) (groupby_sum Food_Item df)
  /\ NoDup (map fst (top_food_items n df))
  /\ (forall a b, In a (top_food_items n df) ->
                  In b (groupby_sum Food_Item df) ->
                  ~ In b (top_food_items n df) -> (snd b <= snd a)%Qc)
  /\ (List.length (groupby_sum Food_Item df) <= n ->
      Permutation (top_food_items n df) (groupby_sum Food_Item df)).
Proof.
  unfold top_food_items, head.
  set (g := groupby_sum Food_Item df).
  set (l := sort_values Qc_leb false g).
  assert (P : Permutation l g) by apply sort_values_perm.
  assert (S : StronglySorted desc_tie_asc l)
    by apply sort_values_desc_ordered, groupby_sum_ascending.
  repeat split.
  - intros a Ia. apply (Permutation_in _ P).
    rewrite <- (firstn_skipn n l). apply in_or_app. now left.
  - rewrite <- firstn_map. apply NoDup_firstn.
    apply (Permutation_NoDup (Permutation_map fst (Permutation_sym P))).
    apply groupby_sum_NoDup.
  - intros a b Ia Ib Nb.
    apply (Permutation_in _ (Permutation_sym P)) in Ib.
    rewrite <- (firstn_skipn n l) in Ib, S. apply in_app_or in Ib.
    destruct Ib as [Ib|Ib]; [contradiction|].
    destruct (StronglySorted_app_inv _ _ _ _ _ S Ia Ib) as [H|[H _]].
    + now apply Qclt_le_weak.
    + rewrite H. apply Qcle_refl.
  - intros L. rewrite firstn_all2; [exact P|].
    now rewrite (Permutation_length P).
Qed.

(** X16: the number of unique food items shown on the dashboard is the
    number of groups of the food item grouping, and it never exceeds the
    number of listings. *)
Theorem unique_food_items_counts_groups (df : Frame) :
  unique_food_items df = List.length (groupby_sum Food_Item df)
  /\ unique_food_items df <= total_listings df.
Proof.
  unfold unique_food_items, nunique, total_listings.
  pose proof (unique_by_NoDup String.eqb String.eqb_eq (map Food_Item df))
    as N.
  pose proof (unique_by_In String.eqb String.eqb_eq (map Food_Item df)) as I.
  pose proof (groupby_sum_NoDup Food_Item df) as Ng.
  pose proof (groupby_sum_In_key Food_Item df) as Ig.
  split.
  - rewrite <- (length_map fst (groupby_sum Food_Item df)).
    apply Permutation_length, NoDup_Permutation; trivial.
    intros k. rewrite I, Ig, in_map_iff. split; intros (r & H1 & H2); eauto.
  - rewrite <- (length_map Food_Item df). apply NoDup_incl_length; trivial.
    intros k. apply I.
Qed.

(** ** Averages per meal type *)






(** ** The expiry trend *)


Lemma date_compare_refl a : date_compare a a = Eq.
Proof. unfold date_compare. now rewrite !Z.compare_refl. Qed.









(** ** The expiry pie and the expired count *)

Lemma filter_split_length {A} (f : A -> bool) l :
  List.length (filter f l) + List.length (filter (fun x => negb (f x)) l)
  = List.length l.
Proof.
  induction l as [|x l IH]; [reflexivity|]. cbn.
  destruct (f x); cbn; lia.
Qed.

(** X19: the Expired slice of the pie is the expired count shown above the
    charts, and the two slices together cover every listing. *)
Theorem expiry_pie_matches_count today (df : Frame) :
  bucket "Expired" (expiry_status today df) = num_expired today df
  /\ bucket "Expired" (expiry_status today df)
     + bucket "Not Expired" (expiry_status today df)
     = total_listings df.
Proof.
  destruct (bucket_expiry_status today df) as [-> ->].
  rewrite !count_for_value_counts. unfold Is_Expired.
  rewrite count_occ_map_true, count_occ_map_false, filter_split_length.
  split; reflexivity.
Qed.

(* ================================================================== *)
(** * Properties of the city filter of tab 1 *)

Lemma insert_str_perm s l : Permutation (insert_str s l) (s :: l).
Proof.
  induction l as [|t l IH]; cbn; [reflexivity|].
  destruct (String.leb s t); [reflexivity|].
  rewrite IH. apply perm_swap.
Qed.

Lemma sorted_perm l : Permutation (sorted l) l.
Proof.
  induction l as [|s l IH]; cbn; [reflexivity|].
  rewrite insert_str_perm. now constructor.
Qed.

Lemma insert_str_strict s l :
  StronglySorted (fun a b => String.compare a b = Lt) l -> ~ In s l ->
  StronglySorted (fun a b => String.compare a b = Lt) (insert_str s l).
Proof.
  induction l as [|t l IH]; intros S N; cbn.
  - repeat constructor.
  - pose proof S as S0. apply StronglySorted_inv in S. destruct S as [S F].
    unfold String.leb. destruct (String.compare s t) eqn:E.
    + apply String.compare_eq_iff in E. subst. cbn in N. tauto.
    + constructor; [exact S0|]. constructor; [exact E|].
      eapply Forall_impl; [|exact F]. cbn. intros b Hb.
      eapply compare_lt_trans; eauto.
    + constructor; [apply IH; [exact S | cbn in N; tauto]|].
      rewrite insert_str_perm. constructor; [now apply compare_gt_lt | exact F].
Qed.

Lemma sorted_strict l :
  NoDup l -> StronglySorted (fun a b => String.compare a b = Lt) (sorted l).
Proof.
  induction 1 as [|s l N _ IH]; cbn; [constructor|].
  apply insert_str_strict; [exact IH|].
  intros I. apply N. now apply (Permutation_in _ (sorted_perm l)).
Qed.

Lemma sorted_In l c : In c (sorted l) <-> In c l.
Proof.
  split; apply Permutation_in; [|symmetry]; apply sorted_perm.
Qed.

Lemma cities_In (df : list (Listing string)) c :
  In c (cities df) <-> exists r, In r df /\ Location r = c.
Proof.
  unfold cities.
  rewrite sorted_In, (unique_by_In String.eqb String.eqb_eq), in_map_iff.
  split; intros (r & H1 & H2); eauto.
Qed.

Lemma cities_strict (df : list (Listing string)) :
  StronglySorted (fun a b => String.compare a b = Lt) (cities df).
Proof.
  apply sorted_strict, (unique_by_NoDup String.eqb String.eqb_eq).
Qed.

Lemma StronglySorted_lt_NoDup l :
  StronglySorted (fun a b => String.compare a b = Lt) l -> NoDup l.
Proof.
  induction 1 as [|s l S IH F]; constructor; trivial.
  intros I. rewrite Forall_forall in F. specialize (F _ I).
  rewrite compare_refl in F. discriminate.
Qed.

(** X20: the cities offered by the selectbox are exactly the locations
    that occur in the listings, each once, in strictly ascending order. *)
Theorem cities_sorted_distinct (df : list (Listing string)) :
  StronglySorted (fun a b => String.compare a b = Lt) (cities df)
  /\ NoDup (cities df)
  /\ (forall c, In c (cities df) <-> exists r, In r df /\ Location r = c).
Proof.
  split; [apply cities_strict | split; [|apply cities_In]].
  apply StronglySorted_lt_NoDup, cities_strict.
Qed.

Lemma list_sum_indicator_out (c : string) cs :
  ~ In c cs ->
  list_sum (map (fun x => if String.eqb c x then 1 else 0) cs) = 0.
Proof.
  induction cs as [|y cs IH]; intros N; [reflexivity|]. cbn.
  destruct (String.eqb c y) eqn:E.
  - apply String.eqb_eq in E. subst. cbn in N. tauto.
  - apply IH. cbn in N. tauto.
Qed.

Lemma list_sum_indicator (c : string) cs :
  NoDup cs -> In c cs ->
  list_sum (map (fun x => if String.eqb c x then 1 else 0) cs) = 1.
Proof.
  induction 1 as [|x cs N _ IH]; intros I; [destruct I|]. cbn.
  destruct (String.eqb c x) eqn:E.
  - apply String.eqb_eq in E. subst x.
    now rewrite list_sum_indicator_out.
  - apply IH. destruct I as [I|I]; [|exact I].
    subst x. now rewrite String.eqb_refl in E.
Qed.

Lemma list_sum_map_add {A} (f g : A -> nat) l :
  list_sum (map (fun x => f x + g x) l)
  = list_sum (map f l) + list_sum (map g l).
Proof.
  unfold list_sum. induction l as [|x l IH]; cbn [map fold_right]; lia.
Qed.

Lemma filtered_lengths (df : list (Listing string)) cs :
  NoDup cs -> (forall r, In r df -> In (Location r) cs) ->
  list_sum (map (fun c => List.length (filtered_df c df)) cs)
  = List.length df.
Proof.
  intros N. induction df as [|r df IH]; intros C.
  - clear. induction cs as [|c cs IH]; [reflexivity | exact IH].
  - rewrite (map_ext _ (fun c => (if String.eqb (Location r) c then 1 else 0)
                                 + List.length (filtered_df c df))).
    + assert (C' : forall r', In r' df -> In (Location r') cs)
        by (intros r' I; apply C; now right).
      assert (I : In (Location r) cs) by (apply C; now left).
      rewrite list_sum_map_add, (IH C'), (list_sum_indicator _ _ N I).
      reflexivity.
    + intros c. unfold filtered_df. cbn.
      destruct (String.eqb (Location r) c); reflexivity.
Qed.

(** X21: the city filter keeps exactly the listings of the selected city;
    for every city offered it shows at least one listing, and over all
    cities offered the filtered tables account for every listing once. *)
Theorem filtered_df_partition (df : list (Listing string)) :
  (forall c r, In r (filtered_df c df) <-> In r df /\ Location r = c)
  /\ (forall c, In c (cities df) -> filtered_df c df <> [])
  /\ list_sum (map (fun c => List.length (filtered_df c df)) (cities df))
     = List.length df.
Proof.
  split; [|split].
  - intros c r. unfold filtered_df. rewrite filter_In, String.eqb_eq.
    reflexivity.
  - intros c I E. apply cities_In in I. destruct I as (r & I & L).
    assert (In r (filtered_df c df)).
    { unfold filtered_df. apply filter_In. split; [exact I|].
      now apply String.eqb_eq. }
    rewrite E in H. destruct H.
  - apply filtered_lengths.
    + apply StronglySorted_lt_NoDup, cities_strict.
    + intros r I. apply cities_In. eauto.
Qed.



(* ================================================================== *)
(** * The handler seen from the dashboard and from the form *)




Lemma lstrip_blank s : blank s = true -> lstrip s = "".
Proof.
  unfold blank. induction s as [|c s IH]; cbn; [reflexivity|].
  intros H. apply andb_true_iff in H. destruct H as [Hc Hs].
  rewrite Hc. now apply IH.
Qed.

Lemma rstrip_empty_blank s : rstrip s = "" -> blank s = true.
Proof.
  unfold blank. induction s as [|c s IH]; cbn; [reflexivity|].
  destruct (rstrip s) as [|c' r]; [|discriminate].
  destruct (isspace c); [|discriminate]. intros _. now apply IH.
Qed.

Lemma lstrip_suffix_blank s : blank (lstrip s) = true -> blank s = true.
Proof.
  unfold blank. induction s as [|c s IH]; cbn; [reflexivity|].
  destruct (isspace c) eqn:E; cbn; [exact IH|].
  now rewrite E.
Qed.

(** A text strips to nothing exactly when it is blank. *)
Lemma strip_empty_iff s : strip s = "" <-> blank s = true.
Proof.
  unfold strip. split.
  - intros H. now apply lstrip_suffix_blank, rstrip_empty_blank.
  - intros H. now rewrite (lstrip_blank s H).
Qed.

(** X24: a submission is turned down without any write as soon as one of
    its six text fields consists of whitespace only. *)
Theorem blank_field_rejected f s :
  blank (food_id f) = true \/ blank (provider_id f) = true
  \/ blank (food_item f) = true \/ blank (location f) = true
  \/ blank (provider_name f) = true \/ blank (provider_contact f) = true ->
  validate f = false
  /\ conn (snd (add_food_form f s)) = conn s.
Proof.
  intros H.
  assert (V : validate f = false).
  { apply not_true_iff_false. intros V. apply validate_true in V.
    rewrite <- !strip_empty_iff in H. tauto. }
  split; [exact V|]. now rewrite (add_food_form_invalid f s V).
Qed.

Lemma blank_field_rejected_witness :
  validate blank_form = false
  /\ conn (snd (add_food_form blank_form fresh_session)) = conn fresh_session.
Proof.
  apply (blank_field_rejected blank_form fresh_session).
  right. right. left. reflexivity.
Defined.

(** X25: the check accepts a submission exactly when its quantity is
    positive and none of its six text fields is blank; the expiry date and
    the meal type play no part. *)
Theorem validate_iff f :
  validate f = true <->
  (Q2Qc 0 < quantity f)%Qc
  /\ blank (food_id f) = false /\ blank (provider_id f) = false
  /\ blank (food_item f) = false /\ blank (location f) = false
  /\ blank (provider_name f) = false /\ blank (provider_contact f) = false.
Proof.
  rewrite validate_true, <- !not_true_iff_false, <- !strip_empty_iff. tauto.
Qed.
